(** * MixClient: a shallow embedding of [src/MixClient.js]

    The client is a thin orchestration layer over three collaborators,
    [MixHTTPConnector], [MixSystemStats] and [MixSearch], whose sources
    are not part of the repository snapshot.  Every method of the class
    is a short promise chain, so the embedding consists of

    - a small universe of JavaScript values,
    - the eventual fate of a promise ([settle]) together with the three
      combinators the class uses: [Promise.all], [.then] and [.catch],
    - a state monad that threads the request log, the console, the cell
      of the promise under construction and the aggregator's cached
      window,
    - the methods of [MixClient], transcribed statement by statement.

    The requests the collaborators send to the node are parameters (the
    answers of [Env]); what [MixSystemStats] computes locally is modelled
    from the specification and marked as such.  [watchNetwork] only
    forwards a filter's notifications and is left out. *)

From Stdlib Require Import QArith.
From stdpp Require Import base strings list gmap.

#[local] Set Warnings "-register-all".

Local Open Scope Z_scope.
Local Open Scope string_scope.
Local Open Scope list_scope.

(** ** JavaScript values *)

(** A JavaScript number, idealised: finite values are exact rationals kept
    in lowest terms; the two non-finite outcomes of a division by zero are
    kept apart because the claims talk about them. *)
Inductive num :=
| Fin (q : Q)
| Inf
| NaN.

(** A block as the node hands it out. *)
Record Block := mkBlock {
  hash : string;
  number : Z;
  timestamp : Z;
  difficulty : Z
}.

Inductive value :=
| VUndef
| VNull
| VBool (b : bool)
| VNum (n : num)
| VStr (s : string)
| VError (message : string)
| VBlock (b : Block)
| VArr (items : list value)
| VObj (props : list (string * value))
| VNative (name : string).

(** [results[i]]: reading past the end of an array gives [undefined]. *)
Definition index (results : list value) (i : nat) : value :=
  default VUndef (results !! i).

Definition of_Z (z : Z) : value := VNum (Fin (inject_Z z)).

(** ** Promises *)

(** The fate of a promise.  [t] is the instant at which it settles; a
    promise that never settles is [Pending]. *)
Inductive settle (A : Type) :=
| Pending
| Fulfilled (t : nat) (v : A)
| Rejected (t : nat) (e : value).
Arguments Pending {A}.
Arguments Fulfilled {A} t v.
Arguments Rejected {A} t e.

Definition settle_map {A B} (f : A -> B) (p : settle A) : settle B :=
  match p with
  | Pending => Pending
  | Fulfilled t v => Fulfilled t (f v)
  | Rejected t e => Rejected t e
  end.

(** A request issued at instant [now] whose answer takes the given time. *)
Definition issue {A} (now : nat) (p : settle A) : settle A :=
  match p with
  | Pending => Pending
  | Fulfilled d v => Fulfilled (now + d) v
  | Rejected d e => Rejected (now + d) e
  end.

(** The earliest rejection among the inputs; among rejections of the same
    instant the one that comes first in the array. *)
Fixpoint first_rejection (ps : list (settle value)) : option (nat * value) :=
  match ps with
  | [] => None
  | p :: ps' =>
      let later := first_rejection ps' in
      match p with
      | Rejected t e =>
          match later with
          | Some (t', e') => if (t' <? t)%nat then later else Some (t, e)
          | None => Some (t, e)
          end
      | _ => later
      end
  end.

(** All values, in array order, with the instant of the last fulfilment. *)
Fixpoint all_fulfilled (ps : list (settle value)) : option (nat * list value) :=
  match ps with
  | [] => Some (0%nat, [])
  | Fulfilled t v :: ps' =>
      match all_fulfilled ps' with
      | Some (t', vs) => Some (Nat.max t t', v :: vs)
      | None => None
      end
  | _ => None
  end.

(** [Promise.all]: rejects as soon as one input rejects, fulfils with the
    array of values once every input has fulfilled. *)
Definition Promise_all (ps : list (settle value)) : settle (list value) :=
  match first_rejection ps with
  | Some (t, e) => Rejected t e
  | None =>
      match all_fulfilled ps with
      | Some (t, vs) => Fulfilled t vs
      | None => Pending
      end
  end.

(** ** The world around the client *)

(** Requests the client sends to its collaborators. *)
Inductive call :=
| CSearchGetBlock (q : value)
| CSearchGetBalance (q : value)
| CSearchGetTransaction (q : value)
| CGetState
| CGetPeerCount
| CGetGasPrice
| CGetLatestBlocks.

(** A web3 object; [connected] is what its [isConnected()] returns. *)
Record Provider := mkProvider {
  provider_name : string;
  connected : bool
}.

(** The node behind [this._web3], and how it answers.  Each answer is a
    fate whose instant is the latency of the request. *)
Record Env := mkEnv {
  provider : Provider;
  answer_getBlock : value -> settle (option Block);
  answer_getBalance : value -> settle value;
  answer_getTransaction : value -> settle value;
  answer_getState : settle value;
  answer_getPeerCount : settle value;
  answer_getGasPrice : settle value;
  answer_getLatestBlocks : settle (list Block)
}.

(** What a run of a method can touch. *)
Record St := mkSt {
  calls : list (nat * call);
  console : list value;
  out : settle value;
  latestBlocks_cache : list Block
}.

Definition M (A : Type) : Type := St -> A * St.

#[global] Instance M_ret : MRet M := λ A x st, (x, st).
#[global] Instance M_bind : MBind M := λ A B f m st, let '(x, st') := m st in f x st'.

Definition log_call (now : nat) (c : call) : M unit :=
  λ st, (tt, mkSt (calls st ++ [(now, c)]) (console st) (out st) (latestBlocks_cache st)).

Definition console_error (msg : value) : M unit :=
  λ st, (tt, mkSt (calls st) (console st ++ [msg]) (out st) (latestBlocks_cache st)).

Definition set_out (p : settle value) : M unit :=
  λ st, (tt, mkSt (calls st) (console st) p (latestBlocks_cache st)).

Definition get_out : M (settle value) := λ st, (out st, st).

Definition set_cache (w : list Block) : M unit :=
  λ st, (tt, mkSt (calls st) (console st) (out st) w).

(** How a callback ends. *)
Inductive completion :=
| Normal
| Throw (e : value).

(** [resolve(v)] and [reject(e)] of the promise under construction: the
    first call settles it, later calls are ignored. *)
Definition resolve (t : nat) (v : value) : M unit :=
  p ← get_out;
  match p with
  | Pending => set_out (Fulfilled t v)
  | _ => mret tt
  end.

Definition reject (t : nat) (e : value) : M unit :=
  p ← get_out;
  match p with
  | Pending => set_out (Rejected t e)
  | _ => mret tt
  end.

(** [new Promise(executor)]: the executor runs with a fresh cell; the
    promise handed back is whatever the cell ends up holding. *)
Definition new_Promise (executor : M unit) : M (settle value) :=
  set_out Pending;;
  executor;;
  p ← get_out;
  set_out Pending;;
  mret p.

(** [p.then(onFulfilled)]: the callback runs when [p] fulfils; a rejection
    of [p] passes through to the derived promise, and so does anything the
    callback throws. *)
Definition then_ {A} (p : settle A) (onFulfilled : nat -> A -> M completion)
  : M (settle unit) :=
  match p with
  | Pending => mret Pending
  | Rejected t e => mret (Rejected t e)
  | Fulfilled t v =>
      c ← onFulfilled t v;
      mret (match c with Normal => Fulfilled t tt | Throw e => Rejected t e end)
  end.

(** [p.catch(onRejected)]. *)
Definition catch_ {A} (p : settle A) (onRejected : nat -> value -> M completion)
  : M (settle unit) :=
  match p with
  | Pending => mret Pending
  | Fulfilled t _ => mret (Fulfilled t tt)
  | Rejected t e =>
      c ← onRejected t e;
      mret (match c with Normal => Fulfilled t tt | Throw e' => Rejected t e' end)
  end.

(** ** [isConnected] *)

Definition isConnected (env : Env) : bool := connected (provider env).

(** ** MixSearch, as far as the client sees it *)

(** [MixSearch.js] is not among the sources.  Each of its three methods is
    a request to the node: it is logged, and its promise settles the way
    the node answers. *)

Definition block_value (b : option Block) : value :=
  match b with
  | Some b => VBlock b
  | None => VNull
  end.

Definition mixSearch_getBlock (env : Env) (now : nat) (q : value)
  : M (settle (option Block)) :=
  log_call now (CSearchGetBlock q);;
  mret (issue now (answer_getBlock env q)).

Definition mixSearch_getBalance (env : Env) (now : nat) (q : value)
  : M (settle value) :=
  log_call now (CSearchGetBalance q);;
  mret (issue now (answer_getBalance env q)).

Definition mixSearch_getTransaction (env : Env) (now : nat) (q : value)
  : M (settle value) :=
  log_call now (CSearchGetTransaction q);;
  mret (issue now (answer_getTransaction env q)).

(** ** [doSearch] *)

Definition doSearch (env : Env) (query : value) : M (settle value) :=
  p0 ← mixSearch_getBlock env 0 query;
  p1 ← mixSearch_getBalance env 0 query;
  p2 ← mixSearch_getTransaction env 0 query;
  let promises := [settle_map block_value p0; p1; p2] in
  new_Promise (
    joined ← then_ (Promise_all promises) (λ t results,
      resolve t (VObj [("block", index results 0);
                       ("account", index results 1);
                       ("transaction", index results 2)]);;
      mret Normal);
    catch_ joined (λ t error,
      reject t error;;
      mret Normal);;
    mret tt).

(** ** [getBlockchainName] *)

Definition IDENTIFYING_BLOCK : Z := 1920001.

Definition blockchainHashes : gmap string string :=
  list_to_map
    [("0x4fa57903dad05875ddf78030c16b5da886f7d81714cf66946a4c02566dbb2af5", "Mix");
     ("0x87b2bc3f12e3ded808c6d4b9b528381fa2a7e95ff2368ba93191a9495daa7f50", "Ethereum");
     ("0xab7668dfd3bedcf9da505d69306e8fd12ad78116429cf8880a9942c6f0605b60", "Ethereum Classic")].

(** An object literal inherits from [Object.prototype]; these names are
    found on every such object. *)
Definition Object_prototype_members : list string :=
  ["constructor"; "toString"; "toLocaleString"; "valueOf"; "hasOwnProperty";
   "isPrototypeOf"; "propertyIsEnumerable"; "__proto__";
   "__defineGetter__"; "__defineSetter__"; "__lookupGetter__"; "__lookupSetter__"].

(** [obj[key]] on an object literal whose own properties are strings. *)
Definition get_property (obj : gmap string string) (key : string) : value :=
  match obj !! key with
  | Some s => VStr s
  | None =>
      if bool_decide (key ∈ Object_prototype_members) then VNative key else VUndef
  end.

(** [typeof v === 'undefined'] *)
Definition is_undefined (v : value) : bool :=
  match v with
  | VUndef => true
  | _ => false
  end.

(** [getBlock(hashOrNumber)] delegates to the search library. *)
Definition getBlock (env : Env) (now : nat) (hashOrNumber : value)
  : M (settle (option Block)) :=
  mixSearch_getBlock env now hashOrNumber.

Definition getTransaction (env : Env) (now : nat) (transactionHash : value)
  : M (settle value) :=
  mixSearch_getTransaction env now transactionHash.

Definition getAccountBalance (env : Env) (now : nat) (accountHash : value)
  : M (settle value) :=
  mixSearch_getBalance env now accountHash.

(** The callback reads [block.hash]; on [null] that read throws a
    [TypeError].  Only the fulfilment of [getBlock] has a handler. *)
Definition getBlockchainName (env : Env) : M (settle value) :=
  new_Promise (
    p ← getBlock env 0 (of_Z IDENTIFYING_BLOCK);
    then_ p (λ t block,
      match block with
      | None => mret (Throw (VError "TypeError"))
      | Some block =>
          if is_undefined (get_property blockchainHashes (hash block))
          then resolve t (VStr "Unknown blockchain");; mret Normal
          else resolve t (get_property blockchainHashes (hash block));; mret Normal
      end);;
    mret tt).

(** ** The constructor *)

(** What [MixHTTPConnector.connect] can do with a URI; the connector is
    not part of this file, so nothing is assumed about which it is. *)
Inductive connect_result :=
| ConnProvider (p : Provider)
| ConnNothing
| ConnThrows (e : value).

(** The globals the constructor looks at.  [localStorage] is [None] where
    the global is undefined, otherwise it holds what
    [getItem('mix-node-uri')] returns ([None] for [null]). *)
Record Ambient := mkAmbient {
  localStorage : option (option string);
  global_web3 : option Provider;
  MixHTTPConnector_connect : string -> connect_result
}.

Inductive event :=
| EvGetItem
| EvConnect (uri : string)
| EvGlobalWeb3
| EvIsConnected (p : Provider).

Record MixClient := mkMixClient {
  _web3 : Provider
}.

Inductive constructed :=
| Threw (e : value)
| Built (c : MixClient).

(** Truthiness of a string-or-null. *)
Definition truthy_uri (u : option string) : bool :=
  match u with
  | Some s => negb (String.eqb s "")
  | None => false
  end.

(** The two library instances the constructor creates at its end are
    built around [this._web3]; in the methods above they are the [Env].

    The constructor's working state: [this._web3], the parameter
    [nodeURI] (which the constructor reassigns) and what it has done so
    far.  The constant [nodeUri] of the source is never read and is left
    out. *)
Record Ctor := mkCtor {
  this_web3 : option Provider;
  nodeURI_var : option string;
  events : list event
}.

(** [if(!nodeURI && typeof localStorage !== 'undefined')] *)
Definition read_stored_uri (amb : Ambient) (s : Ctor) : Ctor :=
  if negb (truthy_uri (nodeURI_var s)) then
    match localStorage amb with
    | Some item => mkCtor (this_web3 s) item (events s ++ [EvGetItem])
    | None => s
    end
  else s.

(** [if(web3Object)] *)
Definition take_supplied (web3Object : option Provider) (s : Ctor) : Ctor :=
  match web3Object with
  | Some w => mkCtor (Some w) (nodeURI_var s) (events s)
  | None => s
  end.

(** [if (nodeURI && !this._web3)]; [inl] when the connector throws. *)
Definition connect_uri (amb : Ambient) (s : Ctor) : (list event * value) + Ctor :=
  match nodeURI_var s, this_web3 s with
  | Some uri, None =>
      if truthy_uri (Some uri) then
        match MixHTTPConnector_connect amb uri with
        | ConnProvider p => inr (mkCtor (Some p) (nodeURI_var s) (events s ++ [EvConnect uri]))
        | ConnNothing => inr (mkCtor None (nodeURI_var s) (events s ++ [EvConnect uri]))
        | ConnThrows e => inl (events s ++ [EvConnect uri], e)
        end
      else inr s
  | _, _ => inr s
  end.

(** [if(!this._web3 && (typeof web3 !== 'undefined'))] *)
Definition take_injected (amb : Ambient) (s : Ctor) : Ctor :=
  match this_web3 s with
  | Some _ => s
  | None => mkCtor (global_web3 amb) (nodeURI_var s) (events s ++ [EvGlobalWeb3])
  end.

Definition not_connected_error : value := VError "Not connected to network".

(** [if(!this._web3 || !this._web3.isConnected())] *)
Definition test_connection (s : Ctor) : list event * constructed :=
  match this_web3 s with
  | None => (events s, Threw not_connected_error)
  | Some w =>
      if connected w
      then (events s ++ [EvIsConnected w], Built (mkMixClient w))
      else (events s ++ [EvIsConnected w], Threw not_connected_error)
  end.

Definition constructor (amb : Ambient) (nodeURI : option string)
    (web3Object : option Provider) : list event * constructed :=
  let s := mkCtor None nodeURI [] in
  let s := read_stored_uri amb s in
  let s := take_supplied web3Object s in
  match connect_uri amb s with
  | inl (evs, e) => (evs, Threw e)
  | inr s => test_connection (take_injected amb s)
  end.

(** ** MixSystemStats *)

(** [a / b] on numbers that happen to be integers. *)
Definition num_div (a b : Z) : num :=
  if (b =? 0)%Z then (if (a =? 0)%Z then NaN else Inf)
  else Fin (Qred (inject_Z a / inject_Z b)%Q).

Definition window_value (w : list Block) : value := VArr (VBlock <$> w).

(** The blocks of an array of blocks. *)
Definition window_of_value (v : value) : list Block :=
  match v with
  | VArr items =>
      omap (λ x, match x with VBlock b => Some b | _ => None end) items
  | _ => []
  end.

(** [MixSystemStats.js] is not among the sources.  [getState],
    [getPeerCount] and [getGasPrice] are requests to the node: each is
    logged, and its promise settles the way the node answers. *)
Definition systemStats_getState (env : Env) (now : nat) : M (settle value) :=
  log_call now CGetState;;
  mret (issue now (answer_getState env)).

Definition systemStats_getPeerCount (env : Env) (now : nat) : M (settle value) :=
  log_call now CGetPeerCount;;
  mret (issue now (answer_getPeerCount env)).

Definition systemStats_getGasPrice (env : Env) (now : nat) : M (settle value) :=
  log_call now CGetGasPrice;;
  mret (issue now (answer_getGasPrice env)).

(** Modelled from the spec: [MixSystemStats.setLatestBlocks] is missing
    from the sources.  The cached window is replaced wholesale. *)
Definition systemStats_setLatestBlocks (w : list Block) : M unit :=
  set_cache w.

(** Modelled from the spec: [MixSystemStats.getLatestBlocks] is missing
    from the sources.  It fetches the window of the most recent blocks,
    newest first; a window that has been fetched replaces the cached one
    wholesale. *)
Definition systemStats_getLatestBlocks (env : Env) (now : nat) : M (settle value) :=
  log_call now CGetLatestBlocks;;
  match issue now (answer_getLatestBlocks env) with
  | Fulfilled t w => set_cache w;; mret (Fulfilled t (window_value w))
  | Rejected t e => mret (Rejected t e)
  | Pending => mret Pending
  end.

(** Modelled from the spec: [MixSystemStats.getAverageDifficulty] is
    missing from the sources.  The arithmetic mean of the [difficulty]
    field across all blocks of the window. *)
Definition systemStats_getAverageDifficulty (w : list Block) : num :=
  num_div (foldr Z.add 0 (difficulty <$> w)) (Z.of_nat (length w)).

(** Modelled from the spec: [MixSystemStats.getBlockTimes] is missing from
    the sources.  The timestamp deltas between each block and its
    predecessor in the window, in window order. *)
Fixpoint systemStats_getBlockTimes (w : list Block) : list Z :=
  match w with
  | b :: (b' :: _) as rest => (timestamp b - timestamp b') :: systemStats_getBlockTimes rest
  | _ => []
  end.

(** Modelled from the spec: the body of [MixSystemStats.getHashRate],
    which is missing from the sources.  The estimate over a window is the
    most recent difficulty divided by the most recent block-time delta,
    and zero when that delta is zero or the window has fewer than two
    blocks. *)
Definition hash_rate (w : list Block) : num :=
  match w with
  | b :: b' :: _ =>
      if (timestamp b - timestamp b' =? 0)%Z then Fin 0
      else num_div (difficulty b) (timestamp b - timestamp b')
  | _ => Fin 0
  end.

(** Modelled from the spec: [MixSystemStats.getHashRate] is missing from
    the sources.  The spec makes the hash rate, like the other two derived
    metrics, a pure function of the block window of the stats computation,
    the window the aggregator owns for the duration of that computation.
    The client calls the method without an argument; the embedding hands
    the window of the computation over explicitly. *)
Definition systemStats_getHashRate (window : list Block) : num :=
  hash_rate window.

(** ** [getSystemStats] *)

(** [obj.key = v] *)
Fixpoint set_prop (key : string) (v : value) (obj : list (string * value))
  : list (string * value) :=
  match obj with
  | [] => [(key, v)]
  | (k, x) :: obj' =>
      if String.eqb k key then (k, v) :: obj' else (k, x) :: set_prop key v obj'
  end.

Fixpoint get_prop (key : string) (obj : list (string * value)) : value :=
  match obj with
  | [] => VUndef
  | (k, x) :: obj' => if String.eqb k key then x else get_prop key obj'
  end.

(** [error.message]; [None] is the [TypeError] of reading a member of
    [undefined] or [null]. *)
Definition get_message (error : value) : option value :=
  match error with
  | VUndef | VNull => None
  | VError m => Some (VStr m)
  | VObj props => Some (get_prop "message" props)
  | _ => Some VUndef
  end.

(** The argument is a list of blocks or is left out; an array is truthy
    whatever its length, so [!latestBlocks] holds exactly when it is left
    out (or [null]). *)
Definition getSystemStats (env : Env) (latestBlocks : option (list Block))
  : M (settle value) :=
  new_Promise (
    let stats : list (string * value) := [] in
    p ← systemStats_getState env 0;
    then_ p (λ t0 state,
      let stats := set_prop "state" state stats in
      peerCount ← systemStats_getPeerCount env t0;
      gasPrice ← systemStats_getGasPrice env t0;
      promises ←
        match latestBlocks with
        | None =>
            blocks ← systemStats_getLatestBlocks env t0;
            mret [peerCount; gasPrice; blocks]
        | Some _ => mret [peerCount; gasPrice]
        end;
      joined ← then_ (Promise_all promises) (λ t results,
        let stats := set_prop "peerCount" (index results 0) stats in
        let stats := set_prop "gasPrice" (index results 1) stats in
        let stats :=
          set_prop "latestBlocks"
            match latestBlocks with
            | Some w => window_value w
            | None => index results 2
            end stats in
        let window := window_of_value (get_prop "latestBlocks" stats) in
        let stats :=
          set_prop "difficulty" (VNum (systemStats_getAverageDifficulty window)) stats in
        let stats :=
          set_prop "blockTimes" (VArr (of_Z <$> systemStats_getBlockTimes window)) stats in
        let stats :=
          set_prop "hashRate" (VNum (systemStats_getHashRate window)) stats in
        resolve t (VObj stats);;
        mret Normal);
      catch_ joined (λ t error,
        match get_message error with
        | None => mret (Throw (VError "TypeError"))
        | Some message =>
            console_error message;;
            reject t error;;
            mret Normal
        end);;
      mret Normal);;
    mret tt).

(** ** [updateBlocks] and [getBlocks] *)

Definition updateBlocks (env : Env) (latestBlocks : list Block) : M (settle value) :=
  systemStats_setLatestBlocks latestBlocks;;
  getSystemStats env (Some latestBlocks).

Definition getBlocks (env : Env) : M (settle value) :=
  new_Promise (
    p ← systemStats_getState env 0;
    then_ p (λ t0 _,
      q ← systemStats_getLatestBlocks env t0;
      then_ q (λ t latestBlocks, resolve t latestBlocks;; mret Normal);;
      mret Normal);;
    mret tt).

(** ** [watchNetwork] *)

(** Truthiness of a value, as [if(error)] tests it. *)
Definition truthy (v : value) : bool :=
  match v with
  | VUndef | VNull => false
  | VBool b => b
  | VNum (Fin q) => negb (Qeq_bool q 0)
  | VNum Inf => true
  | VNum NaN => false
  | VStr s => negb (String.eqb s "")
  | _ => true
  end.

(** A call of one of the two functions handed to [watchNetwork]. *)
Inductive delivery :=
| ToCallback (result : value)
| ToErrorCallback (error : value).

(** The function [watchNetwork] passes to [filter.watch]. *)
Definition watch_handler (error result : value) : delivery :=
  if truthy error then ToErrorCallback error else ToCallback result.

(** [watchNetwork(callback, errorCallback)] opens the filter ['latest'],
    registers [watch_handler] on it and returns the filter.  The filter's
    behaviour is a parameter: [notifications] are the pairs of error and
    result it reports over its life; the outcome is the filter that was
    asked for and what the two functions get to see. *)
Definition watchNetwork (notifications : list (value * value))
  : string * list delivery :=
  ("latest", (λ n, watch_handler n.1 n.2) <$> notifications).

(** ** Vocabulary of the statements *)

(** What [callback] and what [errorCallback] is called with. *)
Definition to_callback (d : delivery) : option value :=
  match d with
  | ToCallback r => Some r
  | ToErrorCallback _ => None
  end.

Definition to_errorCallback (d : delivery) : option value :=
  match d with
  | ToCallback _ => None
  | ToErrorCallback e => Some e
  end.


Definition st0 : St := mkSt [] [] Pending [].

(** The three promises [doSearch] joins. *)
Definition lookups (env : Env) (query : value) : list (settle value) :=
  [settle_map block_value (answer_getBlock env query);
   answer_getBalance env query;
   answer_getTransaction env query].

(** The promises [getSystemStats] joins once the state has arrived at
    instant [t0]. *)
Definition fan_out (env : Env) (t0 : nat) (latestBlocks : option (list Block))
  : list (settle value) :=
  [issue t0 (answer_getPeerCount env); issue t0 (answer_getGasPrice env)] ++
  match latestBlocks with
  | None => [settle_map window_value (issue t0 (answer_getLatestBlocks env))]
  | Some _ => []
  end.

(** The requests of the fan-out, stamped with the instant of issue. *)
Definition fan_out_calls (t0 : nat) (latestBlocks : option (list Block))
  : list (nat * call) :=
  [(t0, CGetPeerCount); (t0, CGetGasPrice)] ++
  match latestBlocks with
  | None => [(t0, CGetLatestBlocks)]
  | Some _ => []
  end.

Definition is_fan_out_call (c : call) : bool :=
  match c with
  | CGetPeerCount | CGetGasPrice | CGetLatestBlocks => true
  | _ => false
  end.

Definition is_rejected {A} (p : settle A) : bool :=
  match p with
  | Rejected _ _ => true
  | _ => false
  end.

Definition is_fulfilled {A} (p : settle A) : bool :=
  match p with
  | Fulfilled _ _ => true
  | _ => false
  end.



(** The object the join callback of [getSystemStats] hands to [resolve];
    [results] is what the join delivered. *)
Definition stats_object (state : value) (results : list value)
    (latestBlocks : option (list Block))
  : list (string * value) :=
  let window :=
    match latestBlocks with
    | Some w => window_value w
    | None => index results 2
    end in
  [("state", state);
   ("peerCount", index results 0);
   ("gasPrice", index results 1);
   ("latestBlocks", window);
   ("difficulty", VNum (systemStats_getAverageDifficulty (window_of_value window)));
   ("blockTimes", VArr (of_Z <$> systemStats_getBlockTimes (window_of_value window)));
   ("hashRate", VNum (hash_rate (window_of_value window)))].

(** A field of the object a promise fulfilled with. *)
Definition stats_field (key : string) (p : settle value) : value :=
  match p with
  | Fulfilled _ (VObj props) => get_prop key props
  | _ => VUndef
  end.

(** The state after [setLatestBlocks(w)]. *)
Definition with_cache (w : list Block) (st : St) : St :=
  mkSt (calls st) (console st) (out st) w.

Definition stats_keys : list string :=
  ["state"; "peerCount"; "gasPrice"; "latestBlocks"; "difficulty"; "blockTimes";
   "hashRate"].

(** ** Sample inputs *)

Definition mix_block : Block :=
  mkBlock "0x4fa57903dad05875ddf78030c16b5da886f7d81714cf66946a4c02566dbb2af5"
          1920001 1500000000 1000.

Definition other_block : Block :=
  mkBlock "0x00000000000000000000000000000000000000000000000000000000000000aa"
          1920001 1500000000 1000.

Definition node_up : Provider := mkProvider "node" true.
Definition node_down : Provider := mkProvider "node" false.

Definition connection_error : value :=
  VError "CONNECTION ERROR: Couldn't connect to node.".

Definition query : value := VStr "0xabc".

(** A node on which the query names a block and nothing else: the balance
    and the transaction lookups come back empty. *)
Definition env_block_only : Env :=
  mkEnv node_up
    (λ _, Fulfilled 3 (Some mix_block)) (λ _, Fulfilled 1 VNull) (λ _, Fulfilled 2 VNull)
    (Fulfilled 1 (VStr "synced")) (Fulfilled 1 (of_Z 8)) (Fulfilled 2 (of_Z 20))
    (Fulfilled 4 []).

(** The same node, except that the transaction lookup fails. *)
Definition env_one_failure : Env :=
  mkEnv node_up
    (λ _, Fulfilled 3 (Some mix_block)) (λ _, Fulfilled 1 VNull)
    (λ _, Rejected 2 connection_error)
    (Fulfilled 1 (VStr "synced")) (Fulfilled 1 (of_Z 8)) (Fulfilled 2 (of_Z 20))
    (Fulfilled 4 []).

(** A node on which nothing is found. *)
Definition env_nothing_found : Env :=
  mkEnv node_up
    (λ _, Fulfilled 1 None) (λ _, Fulfilled 1 VNull) (λ _, Fulfilled 1 VNull)
    (Fulfilled 1 (VStr "synced")) (Fulfilled 1 (of_Z 8)) (Fulfilled 2 (of_Z 20))
    (Fulfilled 4 []).

(** A node that cannot be reached when the identifying block is asked
    for. *)
Definition env_block_fetch_fails : Env :=
  mkEnv node_up
    (λ _, Rejected 2 connection_error) (λ _, Fulfilled 1 VNull) (λ _, Fulfilled 1 VNull)
    (Fulfilled 1 (VStr "synced")) (Fulfilled 1 (of_Z 8)) (Fulfilled 2 (of_Z 20))
    (Fulfilled 4 []).

(** A node of a chain the registry does not know. *)
Definition env_other_chain : Env :=
  mkEnv node_up
    (λ _, Fulfilled 3 (Some other_block)) (λ _, Fulfilled 1 VNull) (λ _, Fulfilled 1 VNull)
    (Fulfilled 1 (VStr "synced")) (Fulfilled 1 (of_Z 8)) (Fulfilled 2 (of_Z 20))
    (Fulfilled 4 []).

(** Three blocks, newest first. *)
Definition window3 : list Block :=
  [mkBlock "0xa" 10 1000 300; mkBlock "0xb" 9 990 200; mkBlock "0xc" 8 985 100].


(** A node that answers everything; its latest blocks are [window3]. *)
Definition env_stats : Env :=
  mkEnv node_up
    (λ _, Fulfilled 1 None) (λ _, Fulfilled 1 VNull) (λ _, Fulfilled 1 VNull)
    (Fulfilled 1 (VStr "synced")) (Fulfilled 1 (of_Z 8)) (Fulfilled 2 (of_Z 20))
    (Fulfilled 4 window3).

(** The same node, except that the gas price cannot be fetched. *)
Definition env_gas_fails : Env :=
  mkEnv node_up
    (λ _, Fulfilled 1 None) (λ _, Fulfilled 1 VNull) (λ _, Fulfilled 1 VNull)
    (Fulfilled 1 (VStr "synced")) (Fulfilled 1 (of_Z 8)) (Rejected 2 connection_error)
    (Fulfilled 4 window3).

(** A node that is not connected and on which every request fails. *)
Definition env_down_rejects : Env :=
  mkEnv node_down
    (λ _, Rejected 1 connection_error) (λ _, Rejected 1 connection_error)
    (λ _, Rejected 1 connection_error)
    (Rejected 1 connection_error) (Rejected 1 connection_error)
    (Rejected 1 connection_error) (Rejected 1 connection_error).

(** A node that is not connected, says so when asked for its state, and
    fails every other request. *)
Definition env_down_reports : Env :=
  mkEnv node_down
    (λ _, Rejected 1 connection_error) (λ _, Rejected 1 connection_error)
    (λ _, Rejected 1 connection_error)
    (Fulfilled 1 (VStr "not connected")) (Rejected 1 connection_error)
    (Rejected 1 connection_error) (Rejected 1 connection_error).


(** A page without stored preferences, without an injected provider, and
    with a connector that returns nothing. *)
Definition amb_bare : Ambient :=
  mkAmbient None None (λ _, ConnNothing).

(** A page with a stored URI, an injected provider and a connector that
    reaches a node. *)
Definition amb_full : Ambient :=
  mkAmbient (Some (Some "http://localhost:8645"))
            (Some (mkProvider "injected" true))
            (λ _, ConnProvider (mkProvider "http" true)).

(** A node on which the transaction lookup never answers. *)
Definition env_lookup_stalls : Env :=
  mkEnv node_up
    (λ _, Fulfilled 3 (Some mix_block)) (λ _, Fulfilled 1 VNull) (λ _, Pending)
    (Fulfilled 1 (VStr "synced")) (Fulfilled 1 (of_Z 8)) (Fulfilled 2 (of_Z 20))
    (Fulfilled 4 window3).

(** A node whose gas-price request is rejected without a reason. *)
Definition env_gas_fails_silently : Env :=
  mkEnv node_up
    (λ _, Fulfilled 1 None) (λ _, Fulfilled 1 VNull) (λ _, Fulfilled 1 VNull)
    (Fulfilled 1 (VStr "synced")) (Fulfilled 1 (of_Z 8)) (Rejected 2 VUndef)
    (Fulfilled 4 window3).

(** A page that stores a URI, on which the connector reaches a node that
    is not connected, and which has a connected injected provider. *)
Definition amb_stale_node : Ambient :=
  mkAmbient (Some (Some "http://localhost:8645"))
            (Some (mkProvider "injected" true))
            (λ _, ConnProvider (mkProvider "http" false)).

(** A page whose connector throws. *)
Definition amb_connector_throws : Ambient :=
  mkAmbient None (Some (mkProvider "injected" true))
            (λ _, ConnThrows (VError "Invalid URI")).

(** A page with an injected provider only. *)
Definition amb_injected_only : Ambient :=
  mkAmbient None (Some (mkProvider "injected" true)) (λ _, ConnNothing).

(** What a filter reports: a block hash, an error, a block hash. *)
Definition notifications3 : list (value * value) :=
  [(VNull, VStr "0xa"); (connection_error, VStr "0xb"); (VNull, VStr "0xc")].

(** Unfolds the monadic plumbing of a method body. *)
Ltac run :=
  cbv beta iota zeta delta
    [mbind mret M_bind M_ret log_call console_error set_out get_out set_cache
     resolve reject new_Promise then_ catch_ fst snd
     calls console out latestBlocks_cache].

(** Runs the steps of the constructor, given that the URI at hand is
    truthy. *)
Ltac construct Htruthy :=
  unfold constructor, read_stored_uri, take_supplied, connect_uri,
    take_injected, test_connection;
  repeat (simpl in *; rewrite ?Htruthy).

(** ** Promises: the join *)

Lemma issue_0 {A} (p : settle A) : issue 0 p = p.
Proof. by destruct p. Qed.

Lemma first_rejection_elem ps t e :
  first_rejection ps = Some (t, e) → Rejected t e ∈ ps.
Proof.
  revert t e. induction ps as [|p ps IH]; intros t e; simpl; [done|].
  destruct p as [|t1 v1|t1 e1].
  - intros H. right. by apply IH.
  - intros H. right. by apply IH.
  - destruct (first_rejection ps) as [[t' e']|] eqn:Hlater.
    + destruct (t' <? t1)%nat.
      * intros [= -> ->]. right. by apply IH.
      * intros [= -> ->]. left.
    + intros [= -> ->]. left.
Qed.

Lemma first_rejection_earliest ps t e t' e' :
  first_rejection ps = Some (t, e) → Rejected t' e' ∈ ps → (t ≤ t')%nat.
Proof.
  revert t e. induction ps as [|p ps IH]; intros t e; simpl; [done|].
  intros Hfirst Hin. apply elem_of_cons in Hin.
  destruct p as [|t1 v1|t1 e1].
  - destruct Hin as [?|Hin]; [done|]. eauto.
  - destruct Hin as [?|Hin]; [done|]. eauto.
  - destruct (first_rejection ps) as [[t2 e2]|] eqn:Hlater.
    + destruct (t2 <? t1)%nat eqn:Hlt.
      * injection Hfirst as -> ->.
        destruct Hin as [[= -> ->]|Hin]; [|by eapply IH].
        apply Nat.ltb_lt in Hlt. lia.
      * injection Hfirst as -> ->. apply Nat.ltb_ge in Hlt.
        destruct Hin as [[= -> ->]|Hin]; [lia|].
        specialize (IH _ _ eq_refl Hin). lia.
    + injection Hfirst as -> ->.
      destruct Hin as [[= -> ->]|Hin]; [lia|].
      exfalso. clear IH. induction ps as [|q ps IH]; [by apply elem_of_nil in Hin|].
      simpl in Hlater. apply elem_of_cons in Hin.
      destruct q as [|t3 v3|t3 e3].
      * destruct Hin as [?|Hin]; [done|]. auto.
      * destruct Hin as [?|Hin]; [done|]. auto.
      * destruct (first_rejection ps) as [[? ?]|]; [destruct (_ <? _)%nat|]; done.
Qed.

Lemma first_rejection_some ps t e :
  Rejected t e ∈ ps → is_Some (first_rejection ps).
Proof.
  induction ps as [|p ps IH]; intros Hin; [by apply elem_of_nil in Hin|].
  apply elem_of_cons in Hin. simpl.
  destruct p as [|t1 v1|t1 e1].
  - destruct Hin as [?|Hin]; [done|]. auto.
  - destruct Hin as [?|Hin]; [done|]. auto.
  - destruct (first_rejection ps) as [[t2 e2]|]; [destruct (t2 <? t1)%nat|]; eauto.
Qed.

Lemma Promise_all_rejected ps t e :
  Promise_all ps = Rejected t e ↔ first_rejection ps = Some (t, e).
Proof.
  unfold Promise_all. destruct (first_rejection ps) as [[t' e']|].
  - split; intros [= -> ->]; done.
  - destruct (all_fulfilled ps) as [[? ?]|]; split; done.
Qed.

Lemma all_fulfilled_no_rejection ps r :
  all_fulfilled ps = Some r → first_rejection ps = None.
Proof.
  revert r. induction ps as [|p ps IH]; intros r; simpl; [done|].
  destruct p as [|t v|t e]; [done| |done].
  destruct (all_fulfilled ps) as [[t' vs]|]; [|done]. intros _. by eapply IH.
Qed.

Lemma Promise_all_fulfilled ps t vs :
  Promise_all ps = Fulfilled t vs ↔ all_fulfilled ps = Some (t, vs).
Proof.
  unfold Promise_all. split.
  - destruct (first_rejection ps) as [[? ?]|]; [done|].
    destruct (all_fulfilled ps) as [[? ?]|]; [|done]. by intros [= -> ->].
  - intros H. rewrite (all_fulfilled_no_rejection _ _ H), H. done.
Qed.

(** A join that has an input rejecting rejects, with the reason of an
    input that rejected no later than any other. *)
Lemma Promise_all_fails_fast ps t e :
  Rejected t e ∈ ps →
  ∃ t' e', Promise_all ps = Rejected t' e' ∧ Rejected t' e' ∈ ps ∧
           ∀ t'' e'', Rejected t'' e'' ∈ ps → (t' ≤ t'')%nat.
Proof.
  intros Hin. destruct (first_rejection_some _ _ _ Hin) as [[t' e'] Hfirst].
  exists t', e'. split; [by apply Promise_all_rejected|].
  split; [by apply first_rejection_elem|].
  intros t'' e'' Hin'. by eapply first_rejection_earliest.
Qed.

(** ** [doSearch] *)

Lemma doSearch_result env query st :
  (doSearch env query st).1 =
    match Promise_all (lookups env query) with
    | Fulfilled t results =>
        Fulfilled t (VObj [("block", index results 0);
                           ("account", index results 1);
                           ("transaction", index results 2)])
    | Rejected t e => Rejected t e
    | Pending => Pending
    end.
Proof.
  unfold doSearch, lookups, mixSearch_getBlock, mixSearch_getBalance,
    mixSearch_getTransaction.
  rewrite !issue_0. run.
  destruct (Promise_all _); reflexivity.
Qed.

Lemma doSearch_calls env query st :
  calls (doSearch env query st).2 =
    calls st ++ [(0%nat, CSearchGetBlock query); (0%nat, CSearchGetBalance query);
                 (0%nat, CSearchGetTransaction query)].
Proof.
  unfold doSearch, mixSearch_getBlock, mixSearch_getBalance, mixSearch_getTransaction.
  run. destruct (Promise_all _); simpl; by rewrite <- !app_assoc.
Qed.

(** C1, as the claim states it, fails: one failed lookup fails the whole
    search although the other two lookups answered. *)
Lemma doSearch_one_failure_aborts :
  answer_getBlock env_one_failure query = Fulfilled 3 (Some mix_block) ∧
  answer_getBalance env_one_failure query = Fulfilled 1 VNull ∧
  answer_getTransaction env_one_failure query = Rejected 2 connection_error ∧
  (doSearch env_one_failure query st0).1 = Rejected 2 connection_error.
Proof. repeat split. Qed.

(** C1, amended: [doSearch] fails as soon as any one of the three lookups
    fails, with the error of a lookup that failed no later than any other,
    and it fails only then; when all three lookups fulfil (a lookup that
    finds nothing fulfils with an empty value) it fulfils with a
    SearchResult whose [block], [account] and [transaction] slots hold the
    three answers, so a single match leaves the other two slots empty. *)
Theorem doSearch_fails_on_any_failure env query st :
  (∀ t e, Rejected t e ∈ lookups env query →
     ∃ t' e', (doSearch env query st).1 = Rejected t' e' ∧
              Rejected t' e' ∈ lookups env query ∧
              ∀ t'' e'', Rejected t'' e'' ∈ lookups env query → (t' ≤ t'')%nat) ∧
  (∀ t e, (doSearch env query st).1 = Rejected t e →
     Rejected t e ∈ lookups env query) ∧
  (∀ tb b ta a tx x,
     answer_getBlock env query = Fulfilled tb b →
     answer_getBalance env query = Fulfilled ta a →
     answer_getTransaction env query = Fulfilled tx x →
     (doSearch env query st).1 =
       Fulfilled (tb `max` (ta `max` tx))
         (VObj [("block", block_value b); ("account", a); ("transaction", x)])).
Proof.
  rewrite doSearch_result. split; [|split].
  - intros t e Hin.
    destruct (Promise_all_fails_fast _ _ _ Hin) as (t' & e' & Hall & Hin' & Hmin).
    exists t', e'. by rewrite Hall.
  - intros t e. destruct (Promise_all (lookups env query)) as [|t' vs|t' e'] eqn:Hall;
      [done|done|].
    intros [= -> ->]. by apply first_rejection_elem, Promise_all_rejected.
  - intros tb b ta a tx x Hb Ha Hx. unfold Promise_all, lookups.
    rewrite Hb, Ha, Hx. simpl. by rewrite Nat.max_0_r.
Qed.

Lemma doSearch_fails_on_any_failure_witness :
  (doSearch env_block_only query st0).1 =
    Fulfilled 3 (VObj [("block", VBlock mix_block); ("account", VNull);
                       ("transaction", VNull)]) ∧
  ∃ t' e', (doSearch env_one_failure query st0).1 = Rejected t' e' ∧
           Rejected t' e' ∈ lookups env_one_failure query ∧
           ∀ t'' e'', Rejected t'' e'' ∈ lookups env_one_failure query → (t' ≤ t'')%nat.
Proof.
  split.
  - exact (proj2 (proj2 (doSearch_fails_on_any_failure env_block_only query st0))
             3%nat (Some mix_block) 1%nat VNull 2%nat VNull eq_refl eq_refl eq_refl).
  - apply (proj1 (doSearch_fails_on_any_failure env_one_failure query st0)
             2%nat connection_error).
    unfold lookups; simpl. do 2 right. left.
Defined.

(** C9: every SearchResult that [doSearch] returns has the three slots
    [block], [account] and [transaction], whatever they hold. *)
Theorem doSearch_three_slots env query st t r :
  (doSearch env query st).1 = Fulfilled t r →
  ∃ b a x, r = VObj [("block", b); ("account", a); ("transaction", x)].
Proof.
  rewrite doSearch_result.
  destruct (Promise_all (lookups env query)) as [|t' vs|t' e']; [done| |done].
  intros [= _ <-]. eauto.
Qed.

Lemma doSearch_three_slots_witness :
  ∃ b a x,
    VObj [("block", VNull); ("account", VNull); ("transaction", VNull)] =
    VObj [("block", b); ("account", a); ("transaction", x)].
Proof.
  apply (doSearch_three_slots env_nothing_found query st0 1%nat). reflexivity.
Defined.

(** ** [getBlockchainName] *)

Lemma getBlockchainName_result env st :
  (getBlockchainName env st).1 =
    match answer_getBlock env (of_Z IDENTIFYING_BLOCK) with
    | Fulfilled t (Some block) =>
        Fulfilled t
          (if is_undefined (get_property blockchainHashes (hash block))
           then VStr "Unknown blockchain"
           else get_property blockchainHashes (hash block))
    | _ => Pending
    end.
Proof.
  unfold getBlockchainName, getBlock, mixSearch_getBlock. rewrite issue_0. run.
  destruct (answer_getBlock env _) as [|t [block|]|t e]; try reflexivity.
  by destruct (is_undefined _).
Qed.

Lemma getBlockchainName_calls env st :
  calls (getBlockchainName env st).2 =
    calls st ++ [(0%nat, CSearchGetBlock (of_Z IDENTIFYING_BLOCK))].
Proof.
  unfold getBlockchainName, getBlock, mixSearch_getBlock. rewrite issue_0. run.
  destruct (answer_getBlock env _) as [|t [block|]|t e]; try reflexivity.
  by destruct (is_undefined _).
Qed.

(** A hash of the registry gives exactly the registered name. *)
Lemma getBlockchainName_registered env st t block name :
  answer_getBlock env (of_Z IDENTIFYING_BLOCK) = Fulfilled t (Some block) →
  blockchainHashes !! hash block = Some name →
  (getBlockchainName env st).1 = Fulfilled t (VStr name).
Proof.
  intros Hblock Hname. rewrite getBlockchainName_result, Hblock.
  unfold get_property. by rewrite Hname.
Qed.

(** A hash outside the registry gives the sentinel, as long as it is not
    the name of a member every object inherits. *)
Lemma getBlockchainName_unregistered env st t block :
  answer_getBlock env (of_Z IDENTIFYING_BLOCK) = Fulfilled t (Some block) →
  blockchainHashes !! hash block = None →
  hash block ∉ Object_prototype_members →
  (getBlockchainName env st).1 = Fulfilled t (VStr "Unknown blockchain").
Proof.
  intros Hblock Hname Hproto. rewrite getBlockchainName_result, Hblock.
  unfold get_property. rewrite Hname. by rewrite bool_decide_eq_false_2.
Qed.

Example getBlockchainName_Mix :
  (getBlockchainName env_block_only st0).1 = Fulfilled 3 (VStr "Mix").
Proof. by apply (getBlockchainName_registered _ _ _ mix_block). Qed.

Example getBlockchainName_Unknown :
  (getBlockchainName env_other_chain st0).1 = Fulfilled 3 (VStr "Unknown blockchain").
Proof.
  apply (getBlockchainName_unregistered _ _ _ other_block); [done|done|].
  by apply (bool_decide_eq_false_1 (hash other_block ∈ Object_prototype_members)).
Qed.

(** A hash that spells the name of an inherited member finds that member
    in the registry object. *)
Example get_property_inherited :
  blockchainHashes !! "constructor" = None ∧
  get_property blockchainHashes "constructor" = VNative "constructor".
Proof. done. Qed.

(** A failed fetch of the identifying block leaves the promise unsettled. *)
Lemma getBlockchainName_unsettled_on_failure env st t e :
  answer_getBlock env (of_Z IDENTIFYING_BLOCK) = Rejected t e →
  (getBlockchainName env st).1 = Pending.
Proof. intros Hblock. by rewrite getBlockchainName_result, Hblock. Qed.

(** C4: when the fetch of the identifying block fails, the promise that
    [getBlockchainName] returns stays pending for ever; the failure does
    not reach the caller. *)
Theorem getBlockchainName_swallows_fetch_failure :
  answer_getBlock env_block_fetch_fails (of_Z IDENTIFYING_BLOCK) =
    Rejected 2 connection_error ∧
  is_rejected (getBlockchainName env_block_fetch_fails st0).1 = false ∧
  (getBlockchainName env_block_fetch_fails st0).1 = Pending.
Proof. repeat split. Qed.

(** ** [getSystemStats] *)

Lemma window_of_window_value w : window_of_value (window_value w) = w.
Proof.
  unfold window_of_value, window_value.
  induction w as [|b w IH]; [done|]. cbn. by f_equal.
Qed.

Lemma getSystemStats_result env latestBlocks st :
  (getSystemStats env latestBlocks st).1 =
    match answer_getState env with
    | Fulfilled t0 state =>
        match Promise_all (fan_out env t0 latestBlocks) with
        | Fulfilled t results =>
            Fulfilled t
              (VObj (stats_object state results latestBlocks))
        | Rejected t e =>
            match get_message e with
            | Some _ => Rejected t e
            | None => Pending
            end
        | Pending => Pending
        end
    | _ => Pending
    end.
Proof.
  unfold getSystemStats, systemStats_getState, systemStats_getPeerCount,
    systemStats_getGasPrice, systemStats_getLatestBlocks, systemStats_getHashRate,
    fan_out.
  rewrite issue_0.
  destruct (answer_getState env) as [|t0 state|t0 e0]; [done| |done].
  destruct latestBlocks as [w|].
  - run. simpl. destruct (Promise_all _) as [|t results|t e]; [done|done|].
    by destruct (get_message e).
  - destruct (answer_getLatestBlocks env) as [|tw w|tw ew]; run; simpl;
      (destruct (Promise_all _) as [|t results|t e]; [done|done|]);
      by destruct (get_message e).
Qed.

Lemma getSystemStats_calls env latestBlocks st :
  calls (getSystemStats env latestBlocks st).2 =
    calls st ++ (0%nat, CGetState) ::
      match answer_getState env with
      | Fulfilled t0 _ => fan_out_calls t0 latestBlocks
      | _ => []
      end.
Proof.
  unfold getSystemStats, systemStats_getState, systemStats_getPeerCount,
    systemStats_getGasPrice, systemStats_getLatestBlocks, systemStats_getHashRate,
    fan_out_calls.
  rewrite issue_0.
  destruct (answer_getState env) as [|t0 state|t0 e0]; [done| |done].
  destruct latestBlocks as [w|].
  - run. simpl. destruct (Promise_all _) as [|t results|t e]; simpl;
      rewrite <- ?app_assoc; try done.
    by destruct (get_message e); simpl; rewrite <- ?app_assoc.
  - destruct (answer_getLatestBlocks env) as [|tw w|tw ew]; run; simpl;
      (destruct (Promise_all _) as [|t results|t e]; simpl;
       rewrite <- ?app_assoc; try done);
      by destruct (get_message e); simpl; rewrite <- ?app_assoc.
Qed.


Lemma getSystemStats_console env latestBlocks st :
  console (getSystemStats env latestBlocks st).2 =
    console st ++
    match answer_getState env with
    | Fulfilled t0 _ =>
        match Promise_all (fan_out env t0 latestBlocks) with
        | Rejected _ e =>
            match get_message e with
            | Some m => [m]
            | None => []
            end
        | _ => []
        end
    | _ => []
    end.
Proof.
  unfold getSystemStats, systemStats_getState, systemStats_getPeerCount,
    systemStats_getGasPrice, systemStats_getLatestBlocks, systemStats_getHashRate,
    fan_out.
  rewrite issue_0.
  destruct (answer_getState env) as [|t0 state|t0 e0]; [by rewrite app_nil_r| |by rewrite app_nil_r].
  destruct latestBlocks as [w|].
  - run. simpl. destruct (Promise_all _) as [|t results|t e]; simpl;
      rewrite ?app_nil_r; try done.
    by destruct (get_message e); simpl; rewrite ?app_nil_r.
  - destruct (answer_getLatestBlocks env) as [|tw w|tw ew]; run; simpl;
      (destruct (Promise_all _) as [|t results|t e]; simpl;
       rewrite ?app_nil_r; try done);
      by destruct (get_message e); simpl; rewrite ?app_nil_r.
Qed.

(** An object that [getSystemStats] returns carries all seven fields. *)
Lemma getSystemStats_complete_object env latestBlocks st t r :
  (getSystemStats env latestBlocks st).1 = Fulfilled t r →
  ∃ props, r = VObj props ∧ props.*1 = stats_keys.
Proof.
  rewrite getSystemStats_result.
  destruct (answer_getState env) as [|t0 state|t0 e0]; [done| |done].
  destruct (Promise_all _) as [|t' results|t' e']; [done| |by destruct (get_message e')].
  intros [= _ <-]. eexists. split; [done|]. reflexivity.
Qed.

(** Once the state has arrived, a failing fetch makes the join fail with
    the reason of a fetch that failed no later than any other, and the
    call is rejected with that reason unless the reason is [undefined] or
    [null]. *)
Lemma getSystemStats_fails_with_first_error env latestBlocks st t0 state t e :
  answer_getState env = Fulfilled t0 state →
  Rejected t e ∈ fan_out env t0 latestBlocks →
  ∃ t' e',
    Promise_all (fan_out env t0 latestBlocks) = Rejected t' e' ∧
    Rejected t' e' ∈ fan_out env t0 latestBlocks ∧
    (∀ t'' e'', Rejected t'' e'' ∈ fan_out env t0 latestBlocks → (t' ≤ t'')%nat) ∧
    (e' ≠ VUndef → e' ≠ VNull →
     (getSystemStats env latestBlocks st).1 = Rejected t' e').
Proof.
  intros Hstate Hin.
  destruct (Promise_all_fails_fast _ _ _ Hin) as (t' & e' & Hall & Hin' & Hmin).
  exists t', e'. repeat split; [done|done|done|].
  intros Hundef Hnull. rewrite getSystemStats_result, Hstate, Hall.
  by destruct e'.
Qed.

(** C2: the gas-price fetch fails and the promise it returns is rejected
    without a reason.  The join fails, but the handler reads
    [error.message] before it calls [reject]; that read throws, so the
    call is never rejected: its promise stays pending and nothing reaches
    the console. *)
Theorem getSystemStats_reasonless_failure_hangs :
  answer_getState env_gas_fails_silently = Fulfilled 1 (VStr "synced") ∧
  answer_getGasPrice env_gas_fails_silently = Rejected 2 VUndef ∧
  Promise_all (fan_out env_gas_fails_silently 1 None) = Rejected 3 VUndef ∧
  (getSystemStats env_gas_fails_silently None st0).1 = Pending ∧
  is_rejected (getSystemStats env_gas_fails_silently None st0).1 = false ∧
  console (getSystemStats env_gas_fails_silently None st0).2 = [].
Proof. repeat split. Qed.

(** Whatever the node answers, [getSystemStats] does not both skip the
    fan-out and fail. *)
Lemma getSystemStats_fails_only_after_fan_out env latestBlocks st :
  ¬ (calls (getSystemStats env latestBlocks st).2 = calls st ++ [(0%nat, CGetState)] ∧
     is_rejected (getSystemStats env latestBlocks st).1 = true).
Proof.
  rewrite getSystemStats_calls, getSystemStats_result.
  destruct (answer_getState env) as [|t0 state|t0 e0]; [by intros [_ ?]| |by intros [_ ?]].
  intros [Hcalls _]. apply app_inv_head in Hcalls.
  destruct latestBlocks; discriminate Hcalls.
Qed.

(** C3, as the claim states it, fails.  On a node that is not connected
    and fails the state request, nothing more is requested but the call
    never fails: its promise stays pending.  On a node that is not
    connected and reports a state, the three fetches are issued all the
    same. *)
Lemma getSystemStats_no_connectivity_gate :
  (isConnected env_down_rejects = false ∧
   getSystemStats env_down_rejects None st0 =
     (Pending, mkSt [(0%nat, CGetState)] [] Pending [])) ∧
  (isConnected env_down_reports = false ∧
   calls (getSystemStats env_down_reports None st0).2 =
     [(0%nat, CGetState); (1%nat, CGetPeerCount); (1%nat, CGetGasPrice);
      (1%nat, CGetLatestBlocks)]).
Proof. repeat split. Qed.

(** C3, amended: the state request is the first thing [getSystemStats]
    sends.  The peer-count, gas-price and (when no window was passed)
    block-window requests are sent at the instant the state arrives,
    whatever the state is, and the state is recorded in the [state] field
    of the result; when the state request does not fulfil, none of them is
    sent and no stats object is returned. *)
Theorem getSystemStats_state_first env latestBlocks st :
  (∃ rest, calls (getSystemStats env latestBlocks st).2 =
             calls st ++ (0%nat, CGetState) :: rest ∧
           forallb (λ c, is_fan_out_call c.2) rest = true) ∧
  (∀ t0 state, answer_getState env = Fulfilled t0 state →
     calls (getSystemStats env latestBlocks st).2 =
       calls st ++ (0%nat, CGetState) :: fan_out_calls t0 latestBlocks ∧
     ∀ t r, (getSystemStats env latestBlocks st).1 = Fulfilled t r →
            stats_field "state" (Fulfilled t r) = state) ∧
  (is_fulfilled (answer_getState env) = false →
     calls (getSystemStats env latestBlocks st).2 = calls st ++ [(0%nat, CGetState)] ∧
     is_fulfilled (getSystemStats env latestBlocks st).1 = false).
Proof.
  rewrite getSystemStats_calls, getSystemStats_result. split; [|split].
  - eexists. split; [done|].
    destruct (answer_getState env); [done| |done]. by destruct latestBlocks.
  - intros t0 state ->. split; [done|]. intros t r.
    destruct (Promise_all _) as [|t' results|t' e']; [done| |by destruct (get_message e')].
    by intros [= _ <-].
  - by destruct (answer_getState env).
Qed.

Lemma getSystemStats_state_first_witness :
  (calls (getSystemStats env_stats None st0).2 =
     calls st0 ++ (0%nat, CGetState) :: fan_out_calls 1 None) ∧
  (calls (getSystemStats env_down_rejects None st0).2 = calls st0 ++ [(0%nat, CGetState)] ∧
   is_fulfilled (getSystemStats env_down_rejects None st0).1 = false).
Proof.
  split.
  - exact (proj1 (proj1 (proj2 (getSystemStats_state_first env_stats None st0))
                    1%nat (VStr "synced") eq_refl)).
  - exact (proj2 (proj2 (getSystemStats_state_first env_down_rejects None st0)) eq_refl).
Defined.







(** ** [updateBlocks] *)

Lemma updateBlocks_unfold env w st :
  updateBlocks env w st = getSystemStats env (Some w) (with_cache w st).
Proof. reflexivity. Qed.


(** After [updateBlocks(w)] every metric of a returned object is computed
    from [w]. *)
Lemma updateBlocks_metrics env w st t r :
  (updateBlocks env w st).1 = Fulfilled t r →
  stats_field "latestBlocks" (Fulfilled t r) = window_value w ∧
  stats_field "difficulty" (Fulfilled t r) = VNum (systemStats_getAverageDifficulty w) ∧
  stats_field "blockTimes" (Fulfilled t r) = VArr (of_Z <$> systemStats_getBlockTimes w) ∧
  stats_field "hashRate" (Fulfilled t r) = VNum (hash_rate w).
Proof.
  rewrite updateBlocks_unfold, getSystemStats_result.
  destruct (answer_getState env) as [|t0 state|t0 e0]; [done| |done].
  destruct (Promise_all _) as [|t' results|t' e']; [done| |by destruct (get_message e')].
  intros [= _ <-]. unfold stats_field, stats_object. cbv zeta.
  by rewrite window_of_window_value.
Qed.

(** ** The metrics *)

Example average_difficulty_10_20_30 :
  systemStats_getAverageDifficulty
    [mkBlock "0xa" 3 30 10; mkBlock "0xb" 2 20 20; mkBlock "0xc" 1 10 30] = Fin 20.
Proof. reflexivity. Qed.

Lemma getBlockTimes_length w :
  length (systemStats_getBlockTimes w) = (length w - 1)%nat.
Proof.
  induction w as [|b [|b' rest] IH]; [done|done|].
  change (S (length (systemStats_getBlockTimes (b' :: rest))) =
          (length (b :: b' :: rest) - 1)%nat).
  rewrite IH. simpl. lia.
Qed.







(** ** The constructor *)

Section Constructor.

Variable amb : Ambient.

(** Reading the stored preference touches neither [this._web3] nor the
    connector. *)
Lemma read_stored_uri_events nodeURI :
  this_web3 (read_stored_uri amb (mkCtor None nodeURI [])) = None ∧
  (events (read_stored_uri amb (mkCtor None nodeURI [])) = [] ∨
   events (read_stored_uri amb (mkCtor None nodeURI [])) = [EvGetItem]).
Proof.
  unfold read_stored_uri. simpl.
  destruct (truthy_uri nodeURI); simpl; [by auto|].
  destruct (localStorage amb); simpl; auto.
Qed.

(** A client that has been built holds the provider the connection test
    was made on, and the test said yes. *)
Lemma test_connection_built s evs c :
  test_connection s = (evs, Built c) →
  this_web3 s = Some (_web3 c) ∧ connected (_web3 c) = true.
Proof.
  unfold test_connection. destruct (this_web3 s) as [w|]; [|done].
  destruct (connected w) eqn:Hw; [|done]. by intros [= _ <-].
Qed.

Lemma test_connection_refused s :
  (∀ w, this_web3 s = Some w → connected w = false) →
  (test_connection s).2 = Threw not_connected_error.
Proof.
  unfold test_connection. intros Hdown.
  destruct (this_web3 s) as [w|]; [|done]. by rewrite (Hdown w eq_refl).
Qed.

(** The provider the connection test is made on was passed in, came
    out of the connector, or is the injected one. *)
Lemma constructor_provider_origin nodeURI web3Object s w :
  connect_uri amb (take_supplied web3Object
                     (read_stored_uri amb (mkCtor None nodeURI []))) = inr s →
  this_web3 (take_injected amb s) = Some w →
  web3Object = Some w ∨ global_web3 amb = Some w ∨
  ∃ uri, MixHTTPConnector_connect amb uri = ConnProvider w.
Proof.
  destruct (read_stored_uri_events nodeURI) as [Hnone _].
  destruct (read_stored_uri amb _) as [w0 uri0 evs0]. simpl in Hnone. subst w0.
  unfold connect_uri, take_supplied, take_injected.
  intros Hconn Hw.
  destruct web3Object as [w1|]; simpl in Hconn.
  - assert (s = mkCtor (Some w1) uri0 evs0) as -> by (destruct uri0; congruence).
    simpl in Hw. auto.
  - destruct uri0 as [uri|]; simpl in Hconn.
    + destruct (negb (String.eqb uri "")).
      * destruct (MixHTTPConnector_connect amb uri) as [p| |e] eqn:Hp.
        -- injection Hconn as <-. simpl in Hw. injection Hw as <-. eauto.
        -- injection Hconn as <-. simpl in Hw. auto.
        -- discriminate Hconn.
      * injection Hconn as <-. simpl in Hw. auto.
    + injection Hconn as <-. simpl in Hw. auto.
Qed.

(** C7: the constructor builds a client only around a provider whose
    [isConnected()] answered true; when every provider it could obtain
    (passed in, reached through the connector, or injected) reports
    not connected, or there is none, it throws. *)
Theorem constructor_requires_connection nodeURI web3Object :
  (∀ c, (constructor amb nodeURI web3Object).2 = Built c →
        connected (_web3 c) = true) ∧
  ((∀ w, web3Object = Some w → connected w = false) →
   (∀ w, global_web3 amb = Some w → connected w = false) →
   (∀ uri p, MixHTTPConnector_connect amb uri = ConnProvider p → connected p = false) →
   ∃ e, (constructor amb nodeURI web3Object).2 = Threw e).
Proof.
  unfold constructor. split.
  - intros c. destruct (connect_uri amb _) as [[evs e]|s]; [done|].
    destruct (test_connection _) as [evs r] eqn:Htest. simpl. intros ->.
    by apply test_connection_built in Htest as [_ ?].
  - intros Hsupplied Hinjected Hconnector.
    destruct (connect_uri amb _) as [[evs e]|s] eqn:Hconn; [by eauto|].
    exists not_connected_error. apply test_connection_refused.
    intros w Hw.
    destruct (constructor_provider_origin _ _ _ _ Hconn Hw) as [?|[?|[uri ?]]]; eauto.
Qed.

(** With a web3 object passed in, the constructor does nothing but
    read the stored preference (where there is one to read) and test
    the connection of that object. *)
Lemma constructor_supplied nodeURI w :
  constructor amb nodeURI (Some w) =
    (events (read_stored_uri amb (mkCtor None nodeURI [])) ++ [EvIsConnected w],
     if connected w then Built (mkMixClient w) else Threw not_connected_error).
Proof.
  unfold constructor, take_supplied, connect_uri, take_injected, test_connection.
  destruct (read_stored_uri amb _) as [w0 uri0 evs0]. simpl.
  destruct uri0; simpl; by destruct (connected w).
Qed.

(** C10: when a web3 object is passed in, the connector is not called
    and the injected provider is not looked at; the connection test is
    made on the object passed in, and the client is built around it
    when the test says yes. *)
Theorem constructor_prefers_supplied_web3 nodeURI w :
  (∀ uri, EvConnect uri ∉ (constructor amb nodeURI (Some w)).1) ∧
  (EvGlobalWeb3 ∉ (constructor amb nodeURI (Some w)).1) ∧
  (EvIsConnected w ∈ (constructor amb nodeURI (Some w)).1) ∧
  (constructor amb nodeURI (Some w)).2 =
    (if connected w then Built (mkMixClient w) else Threw not_connected_error).
Proof.
  rewrite constructor_supplied. simpl.
  destruct (read_stored_uri_events nodeURI) as [_ [-> | ->]]; simpl.
  - repeat split.
    + intros uri Hin. by apply list_elem_of_singleton in Hin.
    + intros Hin. by apply list_elem_of_singleton in Hin.
    + by apply list_elem_of_singleton.
  - repeat split.
    + intros uri Hin. apply elem_of_cons in Hin as [?|Hin]; [done|].
      by apply list_elem_of_singleton in Hin.
    + intros Hin. apply elem_of_cons in Hin as [?|Hin]; [done|].
      by apply list_elem_of_singleton in Hin.
    + right. by apply list_elem_of_singleton.
Qed.
End Constructor.

Lemma constructor_requires_connection_witness :
  connected (_web3 (mkMixClient node_up)) = true ∧
  ∃ e, (constructor amb_bare None None).2 = Threw e.
Proof.
  split.
  - exact (proj1 (constructor_requires_connection amb_full None (Some node_up))
             (mkMixClient node_up) eq_refl).
  - apply (proj2 (constructor_requires_connection amb_bare None None)); done.
Defined.

(** ** The constructor: which provider is chosen *)

Lemma truthy_uri_nonempty uri : uri ≠ "" → truthy_uri (Some uri) = true.
Proof.
  intros Hne. unfold truthy_uri. by apply negb_true_iff, String.eqb_neq.
Qed.

(** X1: an explicit URI overrides the injected provider.  With a
    non-empty [nodeURI] and no web3 object, the provider the connector
    returns is the one that is tested and used; the stored preference is
    not read and the injected provider is not looked at, not even when
    the node behind the URI turns out not to be connected. *)
Theorem constructor_uri_overrides_injected amb uri p :
  uri ≠ "" →
  MixHTTPConnector_connect amb uri = ConnProvider p →
  constructor amb (Some uri) None =
    ([EvConnect uri; EvIsConnected p],
     if connected p then Built (mkMixClient p) else Threw not_connected_error).
Proof.
  intros Hne Hconn. pose proof (truthy_uri_nonempty _ Hne) as Htruthy.
  construct Htruthy. rewrite Hconn. simpl. by destruct (connected p).
Qed.

Lemma constructor_uri_overrides_injected_witness :
  constructor amb_stale_node (Some "http://127.0.0.1:8545") None =
    ([EvConnect "http://127.0.0.1:8545"; EvIsConnected (mkProvider "http" false)],
     Threw not_connected_error).
Proof.
  apply (constructor_uri_overrides_injected amb_stale_node "http://127.0.0.1:8545"
           (mkProvider "http" false)); done.
Defined.

(** X2: without a usable [nodeURI] argument and without a web3 object,
    the URI stored under [mix-node-uri] is the one the connector is
    called with. *)
Theorem constructor_reads_stored_uri amb nodeURI uri p :
  truthy_uri nodeURI = false →
  localStorage amb = Some (Some uri) →
  uri ≠ "" →
  MixHTTPConnector_connect amb uri = ConnProvider p →
  constructor amb nodeURI None =
    ([EvGetItem; EvConnect uri; EvIsConnected p],
     if connected p then Built (mkMixClient p) else Threw not_connected_error).
Proof.
  intros Harg Hstored Hne Hconn.
  pose proof (truthy_uri_nonempty _ Hne) as Htruthy.
  unfold constructor, read_stored_uri. simpl. rewrite Harg, Hstored.
  construct Htruthy. rewrite Hconn. simpl. by destruct (connected p).
Qed.

Lemma constructor_reads_stored_uri_witness :
  constructor amb_full (Some "") None =
    ([EvGetItem; EvConnect "http://localhost:8645"; EvIsConnected (mkProvider "http" true)],
     Built (mkMixClient (mkProvider "http" true))).
Proof.
  apply (constructor_reads_stored_uri amb_full (Some "") "http://localhost:8645"
           (mkProvider "http" true)); done.
Defined.

(** X3: the injected provider is the last resort.  When no web3 object is
    passed and there is no usable URI (neither passed nor stored), or the
    connector returns nothing, the client is built around the injected
    provider if there is one and it is connected; otherwise the
    constructor throws. *)
Theorem constructor_falls_back_to_injected amb nodeURI :
  (truthy_uri nodeURI = false ∧
   ∀ item, localStorage amb = Some item → truthy_uri item = false) ∨
  (∀ uri, MixHTTPConnector_connect amb uri = ConnNothing) →
  (constructor amb nodeURI None).2 =
    match global_web3 amb with
    | Some g => if connected g then Built (mkMixClient g) else Threw not_connected_error
    | None => Threw not_connected_error
    end.
Proof.
  intros Hcase.
  unfold constructor, read_stored_uri, take_supplied, connect_uri. simpl.
  assert (Hinjected : ∀ uri0 evs0,
    (test_connection (take_injected amb (mkCtor None uri0 evs0))).2 =
      match global_web3 amb with
      | Some g => if connected g then Built (mkMixClient g) else Threw not_connected_error
      | None => Threw not_connected_error
      end).
  { intros uri0 evs0. unfold take_injected, test_connection. simpl.
    destruct (global_web3 amb) as [g|]; [|done]. by destruct (connected g). }
  destruct nodeURI as [uri|]; simpl in *.
  - destruct (negb (String.eqb uri "")) eqn:Harg; simpl.
    + rewrite Harg. destruct Hcase as [[? _]|Hnothing]; [done|].
      rewrite Hnothing. apply Hinjected.
    + destruct (localStorage amb) as [[stored|]|] eqn:Hstored; simpl.
      * destruct (negb (String.eqb stored "")) eqn:Huri; [|apply Hinjected].
        destruct Hcase as [[_ Hitems]|Hnothing].
        -- specialize (Hitems _ eq_refl). simpl in Hitems. congruence.
        -- rewrite Hnothing. apply Hinjected.
      * apply Hinjected.
      * rewrite Harg. apply Hinjected.
  - destruct (localStorage amb) as [[stored|]|] eqn:Hstored; simpl.
    + destruct (negb (String.eqb stored "")) eqn:Huri; [|apply Hinjected].
      destruct Hcase as [[_ Hitems]|Hnothing].
      * specialize (Hitems _ eq_refl). simpl in Hitems. congruence.
      * rewrite Hnothing. apply Hinjected.
    + apply Hinjected.
    + apply Hinjected.
Qed.

Lemma constructor_falls_back_to_injected_witness :
  (constructor amb_injected_only None None).2 =
    Built (mkMixClient (mkProvider "injected" true)).
Proof.
  apply (constructor_falls_back_to_injected amb_injected_only None). left. split; [done|].
  intros item Hitem. discriminate Hitem.
Defined.

(** X4: what the connector throws leaves the constructor unchanged; no
    connection is tested and the injected provider is not tried. *)
Theorem constructor_connector_throws amb uri e :
  uri ≠ "" →
  MixHTTPConnector_connect amb uri = ConnThrows e →
  constructor amb (Some uri) None = ([EvConnect uri], Threw e).
Proof.
  intros Hne Hconn. pose proof (truthy_uri_nonempty _ Hne) as Htruthy.
  construct Htruthy. by rewrite Hconn.
Qed.

Lemma constructor_connector_throws_witness :
  constructor amb_connector_throws (Some "ftp://nowhere") None =
    ([EvConnect "ftp://nowhere"], Threw (VError "Invalid URI")).
Proof.
  apply (constructor_connector_throws amb_connector_throws "ftp://nowhere"); done.
Defined.

(** X5: an empty [nodeURI] string is the same as none at all. *)
Theorem constructor_empty_uri amb web3Object :
  constructor amb (Some "") web3Object = constructor amb None web3Object.
Proof.
  unfold constructor, read_stored_uri, take_supplied, connect_uri. simpl.
  destruct (localStorage amb) as [item|]; [done|].
  by destruct web3Object.
Qed.

(** X6: a non-empty [nodeURI] argument makes the stored preference
    irrelevant: local storage is not read, whatever it holds. *)
Theorem constructor_uri_ignores_storage stored injected connect uri web3Object :
  uri ≠ "" →
  constructor (mkAmbient stored injected connect) (Some uri) web3Object =
  constructor (mkAmbient None injected connect) (Some uri) web3Object.
Proof.
  intros Hne. unfold constructor, read_stored_uri.
  pose proof (truthy_uri_nonempty _ Hne) as Htruthy.
  cbn [nodeURI_var]. by rewrite Htruthy.
Qed.

Lemma constructor_uri_ignores_storage_witness :
  constructor amb_full (Some "http://127.0.0.1:8545") None =
  constructor (mkAmbient None (global_web3 amb_full) (MixHTTPConnector_connect amb_full))
    (Some "http://127.0.0.1:8545") None.
Proof.
  apply (constructor_uri_ignores_storage (localStorage amb_full)); done.
Defined.

(** ** Joins that never settle *)

Lemma first_rejection_none ps :
  first_rejection ps = None ↔ ∀ t e, Rejected t e ∉ ps.
Proof.
  split.
  - intros Hnone t e Hin. destruct (first_rejection_some _ _ _ Hin) as [r Hr]. congruence.
  - intros Hno. destruct (first_rejection ps) as [[t e]|] eqn:Hfirst; [|done].
    exfalso. by eapply Hno, first_rejection_elem.
Qed.

Lemma all_fulfilled_none ps :
  all_fulfilled ps = None ↔ ∃ p, p ∈ ps ∧ is_fulfilled p = false.
Proof.
  induction ps as [|p ps IH]; simpl.
  - split; [done|]. intros (p & Hin & _). by apply elem_of_nil in Hin.
  - destruct p as [|t v|t e].
    + split; [|done]. intros _. exists Pending. split; [left|done].
    + destruct (all_fulfilled ps) as [[t' vs]|].
      * split; [done|]. intros (p & Hin & Hp). apply elem_of_cons in Hin as [->|Hin]; [done|].
        assert (Some (t', vs) = None) by (apply IH; eauto). done.
      * split; [|done]. intros _. destruct (proj1 IH eq_refl) as (p & Hin & Hp).
        exists p. split; [by right|done].
    + split; [|done]. intros _. exists (Rejected t e). split; [left|done].
Qed.

Lemma Promise_all_pending ps :
  Promise_all ps = Pending ↔ (∀ t e, Rejected t e ∉ ps) ∧ Pending ∈ ps.
Proof.
  unfold Promise_all. split.
  - destruct (first_rejection ps) as [[t e]|] eqn:Hfirst; [done|].
    destruct (all_fulfilled ps) as [[t vs]|] eqn:Hall; [done|]. intros _.
    pose proof (proj1 (first_rejection_none ps) Hfirst) as Hno. split; [done|].
    destruct (proj1 (all_fulfilled_none ps) Hall) as (p & Hin & Hp).
    destruct p as [|t v|t e]; [done|done|]. by apply Hno in Hin.
  - intros [Hno Hin]. rewrite (proj2 (first_rejection_none ps) Hno).
    assert (all_fulfilled ps = None) as -> by (apply all_fulfilled_none; eauto). done.
Qed.

(** ** [doSearch]: requests and stalls *)

Lemma doSearch_frame env query st :
  console (doSearch env query st).2 = console st ∧
  latestBlocks_cache (doSearch env query st).2 = latestBlocks_cache st.
Proof.
  unfold doSearch, mixSearch_getBlock, mixSearch_getBalance, mixSearch_getTransaction.
  run. by destruct (Promise_all _).
Qed.

(** X7: [doSearch] sends its three requests at once, for the same query
    and in the order block, balance, transaction, whatever the node
    answers; it writes nothing to the console and leaves the window the
    aggregator holds alone. *)
Theorem doSearch_sends_three_requests env query st :
  calls (doSearch env query st).2 =
    calls st ++ [(0%nat, CSearchGetBlock query); (0%nat, CSearchGetBalance query);
                 (0%nat, CSearchGetTransaction query)] ∧
  console (doSearch env query st).2 = console st ∧
  latestBlocks_cache (doSearch env query st).2 = latestBlocks_cache st.
Proof. split; [apply doSearch_calls|apply doSearch_frame]. Qed.

(** X8: the promise of [doSearch] never settles exactly when no lookup
    fails and at least one lookup never answers. *)
Theorem doSearch_stalls env query st :
  (doSearch env query st).1 = Pending ↔
  (∀ t e, Rejected t e ∉ lookups env query) ∧ Pending ∈ lookups env query.
Proof.
  rewrite doSearch_result, <- Promise_all_pending.
  by destruct (Promise_all (lookups env query)).
Qed.

Lemma doSearch_stalls_witness :
  (doSearch env_lookup_stalls query st0).1 = Pending.
Proof.
  apply (proj2 (doSearch_stalls env_lookup_stalls query st0)). split.
  - intros t e Hin. unfold lookups in Hin. simpl in Hin.
    repeat (apply elem_of_cons in Hin as [Hin|Hin]; [discriminate Hin|]).
    by apply elem_of_nil in Hin.
  - unfold lookups. simpl. do 2 right. left.
Defined.

(** ** [getBlockchainName]: lookups and silence *)

(** X9: once the identifying block has arrived, a hash that is a key of
    the registry gives the registered name, and a hash that is neither a
    key nor the name of an inherited member gives ["Unknown blockchain"];
    in both cases at the instant the block arrived. *)
Theorem getBlockchainName_lookup env st t block :
  answer_getBlock env (of_Z IDENTIFYING_BLOCK) = Fulfilled t (Some block) →
  (∀ name, blockchainHashes !! hash block = Some name →
           (getBlockchainName env st).1 = Fulfilled t (VStr name)) ∧
  (blockchainHashes !! hash block = None →
   hash block ∉ Object_prototype_members →
   (getBlockchainName env st).1 = Fulfilled t (VStr "Unknown blockchain")).
Proof.
  intros Hblock. split.
  - intros name Hname. by eapply getBlockchainName_registered.
  - intros Hname Hproto. by eapply getBlockchainName_unregistered.
Qed.

Lemma getBlockchainName_lookup_witness :
  (getBlockchainName env_block_only st0).1 = Fulfilled 3 (VStr "Mix") ∧
  (getBlockchainName env_other_chain st0).1 = Fulfilled 3 (VStr "Unknown blockchain").
Proof.
  split.
  - by apply (proj1 (getBlockchainName_lookup env_block_only st0 3%nat mix_block eq_refl)).
  - apply (proj2 (getBlockchainName_lookup env_other_chain st0 3%nat other_block eq_refl));
      [done|].
    by apply (bool_decide_eq_false_1 (hash other_block ∈ Object_prototype_members)).
Defined.

(** X10: [getBlockchainName] sends one request, for block 1920001, and
    its promise is never rejected: it fulfils when a block arrives and
    otherwise stays pending, also when the node has no such block. *)
Theorem getBlockchainName_never_rejects env st :
  calls (getBlockchainName env st).2 =
    calls st ++ [(0%nat, CSearchGetBlock (of_Z IDENTIFYING_BLOCK))] ∧
  is_rejected (getBlockchainName env st).1 = false ∧
  ((getBlockchainName env st).1 = Pending ↔
   ∀ t block, answer_getBlock env (of_Z IDENTIFYING_BLOCK) ≠ Fulfilled t (Some block)).
Proof.
  split; [apply getBlockchainName_calls|].
  rewrite getBlockchainName_result.
  destruct (answer_getBlock env _) as [|t [block|]|t e]; simpl; split; try done.
  split; [done|]. intros Hno. by destruct (Hno t block).
Qed.

Lemma getBlockchainName_never_rejects_witness :
  (getBlockchainName env_nothing_found st0).1 = Pending.
Proof.
  apply (proj2 (proj2 (getBlockchainName_never_rejects env_nothing_found st0))).
  intros t block Hblock. discriminate Hblock.
Defined.

(** ** [getSystemStats]: what the result carries, the console, stalls *)

Lemma get_message_none e : get_message e = None ↔ e = VUndef ∨ e = VNull.
Proof.
  split.
  - destruct e; simpl; intros; try done; auto.
  - by intros [-> | ->].
Qed.

(** X11: when the state, the peer count and the gas price arrive, the
    result carries them unchanged in [state], [peerCount] and [gasPrice];
    [latestBlocks] is the window that was passed in or, when none was
    passed, the window that was fetched; and the promise fulfils at the
    instant the last of the joined answers arrives. *)
Theorem getSystemStats_carries_answers env latestBlocks st t0 s d1 p d2 g :
  answer_getState env = Fulfilled t0 s →
  answer_getPeerCount env = Fulfilled d1 p →
  answer_getGasPrice env = Fulfilled d2 g →
  (∀ w, latestBlocks = Some w →
     ∃ r, (getSystemStats env latestBlocks st).1 =
            Fulfilled ((t0 + d1) `max` (t0 + d2)) (VObj r) ∧
          get_prop "state" r = s ∧ get_prop "peerCount" r = p ∧
          get_prop "gasPrice" r = g ∧ get_prop "latestBlocks" r = window_value w) ∧
  (∀ d3 w, latestBlocks = None → answer_getLatestBlocks env = Fulfilled d3 w →
     ∃ r, (getSystemStats env latestBlocks st).1 =
            Fulfilled ((t0 + d1) `max` ((t0 + d2) `max` (t0 + d3))) (VObj r) ∧
          get_prop "state" r = s ∧ get_prop "peerCount" r = p ∧
          get_prop "gasPrice" r = g ∧ get_prop "latestBlocks" r = window_value w).
Proof.
  intros Hs Hp Hg. rewrite getSystemStats_result, Hs. split.
  - intros w ->. unfold fan_out, Promise_all. rewrite Hp, Hg. simpl.
    rewrite Nat.max_0_r. eexists. split; [reflexivity|]. done.
  - intros d3 w -> Hw. unfold fan_out, Promise_all. rewrite Hp, Hg, Hw. simpl.
    rewrite Nat.max_0_r. eexists. split; [reflexivity|]. done.
Qed.

Lemma getSystemStats_carries_answers_witness :
  ∃ r, (getSystemStats env_stats None st0).1 = Fulfilled 5 (VObj r) ∧
       get_prop "state" r = VStr "synced" ∧ get_prop "peerCount" r = of_Z 8 ∧
       get_prop "gasPrice" r = of_Z 20 ∧ get_prop "latestBlocks" r = window_value window3.
Proof.
  exact (proj2 (getSystemStats_carries_answers env_stats None st0 1%nat (VStr "synced")
                  1%nat (of_Z 8) 2%nat (of_Z 20) eq_refl eq_refl eq_refl)
           4%nat window3 eq_refl eq_refl).
Defined.

(** X12: a failure of the fan-out is reported on the console once, as the
    [message] of the reason the call is rejected with; a call that is not
    rejected writes nothing to the console. *)
Theorem getSystemStats_logs_failure env latestBlocks st :
  (∀ t0 s t e m,
     answer_getState env = Fulfilled t0 s →
     Promise_all (fan_out env t0 latestBlocks) = Rejected t e →
     get_message e = Some m →
     (getSystemStats env latestBlocks st).1 = Rejected t e ∧
     console (getSystemStats env latestBlocks st).2 = console st ++ [m]) ∧
  (is_rejected (getSystemStats env latestBlocks st).1 = false →
   console (getSystemStats env latestBlocks st).2 = console st).
Proof.
  rewrite getSystemStats_result, getSystemStats_console. split.
  - intros t0 s t e m -> -> ->. done.
  - destruct (answer_getState env) as [|t0 s|t0 e0]; [by rewrite app_nil_r| |by rewrite app_nil_r].
    destruct (Promise_all _) as [|t results|t e]; [by rewrite app_nil_r|by rewrite app_nil_r|].
    destruct (get_message e); [done|by rewrite app_nil_r].
Qed.

Lemma getSystemStats_logs_failure_witness :
  (getSystemStats env_gas_fails None st0).1 = Rejected 3 connection_error ∧
  console (getSystemStats env_gas_fails None st0).2 =
    console st0 ++ [VStr "CONNECTION ERROR: Couldn't connect to node."].
Proof.
  exact (proj1 (getSystemStats_logs_failure env_gas_fails None st0)
           1%nat (VStr "synced") 3%nat connection_error
           (VStr "CONNECTION ERROR: Couldn't connect to node.") eq_refl eq_refl eq_refl).
Defined.

(** X13: the promise of [getSystemStats] never settles in exactly three
    situations: the state request does not fulfil; or no joined request
    fails and one of them never answers; or the join fails with
    [undefined] or [null] as its reason, whose [message] cannot be
    read. *)
Theorem getSystemStats_stalls env latestBlocks st :
  (getSystemStats env latestBlocks st).1 = Pending ↔
  is_fulfilled (answer_getState env) = false ∨
  ∃ t0 s, answer_getState env = Fulfilled t0 s ∧
    (((∀ t e, Rejected t e ∉ fan_out env t0 latestBlocks) ∧
      Pending ∈ fan_out env t0 latestBlocks) ∨
     ∃ t e, Promise_all (fan_out env t0 latestBlocks) = Rejected t e ∧
            (e = VUndef ∨ e = VNull)).
Proof.
  rewrite getSystemStats_result.
  destruct (answer_getState env) as [|t0 s|t0 e0]; [by split; auto| |by split; auto].
  split.
  - intros Hres. right. exists t0, s. split; [done|].
    destruct (Promise_all (fan_out env t0 latestBlocks)) as [|t results|t e] eqn:Hall;
      [|done|].
    + left. by apply Promise_all_pending.
    + right. exists t, e. split; [done|]. apply get_message_none.
      by destruct (get_message e).
  - intros [?|(t0' & s' & [= <- <-] & [Hpending|(t & e & Hall & He)])]; [done| |].
    + by rewrite (proj2 (Promise_all_pending _) Hpending).
    + rewrite Hall. by rewrite (proj2 (get_message_none e) He).
Qed.

Lemma getSystemStats_stalls_witness :
  (getSystemStats env_gas_fails_silently None st0).1 = Pending.
Proof.
  apply (proj2 (getSystemStats_stalls env_gas_fails_silently None st0)).
  right. exists 1%nat, (VStr "synced"). split; [done|].
  right. exists 3%nat, VUndef. split; [done|]. by left.
Defined.

(** X14: a window that is passed in is not fetched again — no request for
    the latest blocks is added to the log — and it is the [latestBlocks] of
    the result, by [getSystemStats] as well as by [updateBlocks]. *)
Theorem passed_window_is_not_refetched env w st :
  ((∀ entry, entry ∈ calls (getSystemStats env (Some w) st).2 →
             entry.2 = CGetLatestBlocks → entry ∈ calls st) ∧
   (∀ t r, (getSystemStats env (Some w) st).1 = Fulfilled t r →
           stats_field "latestBlocks" (Fulfilled t r) = window_value w)) ∧
  ((∀ entry, entry ∈ calls (updateBlocks env w st).2 →
             entry.2 = CGetLatestBlocks → entry ∈ calls st) ∧
   (∀ t r, (updateBlocks env w st).1 = Fulfilled t r →
           stats_field "latestBlocks" (Fulfilled t r) = window_value w)).
Proof.
  assert (Hgen : ∀ st',
    calls st' = calls st →
    (∀ entry, entry ∈ calls (getSystemStats env (Some w) st').2 →
              entry.2 = CGetLatestBlocks → entry ∈ calls st) ∧
    (∀ t r, (getSystemStats env (Some w) st').1 = Fulfilled t r →
            stats_field "latestBlocks" (Fulfilled t r) = window_value w)).
  { intros st' Hcalls. rewrite getSystemStats_calls, getSystemStats_result, Hcalls. split.
    - intros entry Hin Hentry. apply elem_of_app in Hin as [Hin|Hin]; [done|].
      apply elem_of_cons in Hin as [->|Hin]; [done|].
      destruct (answer_getState env); simpl in Hin;
        repeat (apply elem_of_cons in Hin as [->|Hin]; [done|]);
        by apply elem_of_nil in Hin.
    - intros t r. destruct (answer_getState env) as [|t0 s|t0 e0]; [done| |done].
      destruct (Promise_all _) as [|t' results|t' e']; [done| |by destruct (get_message e')].
      by intros [= _ <-]. }
  split; [by apply Hgen|]. rewrite updateBlocks_unfold. by apply Hgen.
Qed.

Lemma passed_window_is_not_refetched_witness :
  stats_field "latestBlocks" (updateBlocks env_stats window3 st0).1 = window_value window3.
Proof.
  exact (proj2 (proj2 (passed_window_is_not_refetched env_stats window3 st0)) _ _ eq_refl).
Defined.

(** ** [getBlocks] *)

Lemma getBlocks_result env st :
  (getBlocks env st).1 =
    match answer_getState env, answer_getLatestBlocks env with
    | Fulfilled t0 _, Fulfilled d w => Fulfilled (t0 + d) (window_value w)
    | _, _ => Pending
    end.
Proof.
  unfold getBlocks, systemStats_getState, systemStats_getLatestBlocks.
  rewrite issue_0.
  destruct (answer_getState env) as [|t0 s|t0 e0]; [done| |done].
  by destruct (answer_getLatestBlocks env) as [|d w|d e].
Qed.

Lemma getBlocks_calls env st :
  calls (getBlocks env st).2 =
    calls st ++ (0%nat, CGetState) ::
      match answer_getState env with
      | Fulfilled t0 _ => [(t0, CGetLatestBlocks)]
      | _ => []
      end.
Proof.
  unfold getBlocks, systemStats_getState, systemStats_getLatestBlocks.
  rewrite issue_0.
  destruct (answer_getState env) as [|t0 s|t0 e0]; [done| |done].
  destruct (answer_getLatestBlocks env) as [|d w|d e]; run; simpl;
    by rewrite <- app_assoc.
Qed.

(** X15: [getBlocks] fulfils exactly when the state request and then the
    request for the latest blocks fulfil, with the fetched window and at
    the instant it arrives, whatever the state is; its promise is never
    rejected, so a failure of either request leaves it pending. *)
Theorem getBlocks_returns_fetched_window env st :
  (∀ t v, (getBlocks env st).1 = Fulfilled t v ↔
          ∃ t0 s d w, answer_getState env = Fulfilled t0 s ∧
                      answer_getLatestBlocks env = Fulfilled d w ∧
                      t = (t0 + d)%nat ∧ v = window_value w) ∧
  is_rejected (getBlocks env st).1 = false.
Proof.
  rewrite getBlocks_result. split.
  - intros t v. split.
    + destruct (answer_getState env) as [|t0 s|t0 e0]; [done| |done].
      destruct (answer_getLatestBlocks env) as [|d w|d e]; [done| |done].
      intros [= <- <-]. by exists t0, s, d, w.
    + by intros (t0 & s & d & w & -> & -> & -> & ->).
  - destruct (answer_getState env) as [|t0 s|t0 e0]; [done| |done].
    by destruct (answer_getLatestBlocks env).
Qed.

Lemma getBlocks_returns_fetched_window_witness :
  (getBlocks env_stats st0).1 = Fulfilled 5 (window_value window3).
Proof.
  apply (proj2 (proj1 (getBlocks_returns_fetched_window env_stats st0) 5%nat
                  (window_value window3))).
  by exists 1%nat, (VStr "synced"), 4%nat, window3.
Defined.

(** X16: [getBlocks] asks for the state first and asks for the latest
    blocks only once the state has arrived, at that instant; when the
    state request does not fulfil, the state request is all it sends. *)
Theorem getBlocks_state_first env st :
  (∀ t0 s, answer_getState env = Fulfilled t0 s →
     calls (getBlocks env st).2 =
       calls st ++ [(0%nat, CGetState); (t0, CGetLatestBlocks)]) ∧
  (is_fulfilled (answer_getState env) = false →
     calls (getBlocks env st).2 = calls st ++ [(0%nat, CGetState)]).
Proof.
  rewrite getBlocks_calls. split.
  - by intros t0 s ->.
  - by destruct (answer_getState env).
Qed.

Lemma getBlocks_state_first_witness :
  calls (getBlocks env_stats st0).2 =
    calls st0 ++ [(0%nat, CGetState); (1%nat, CGetLatestBlocks)] ∧
  calls (getBlocks env_down_rejects st0).2 = calls st0 ++ [(0%nat, CGetState)].
Proof.
  split.
  - exact (proj1 (getBlocks_state_first env_stats st0) 1%nat (VStr "synced") eq_refl).
  - exact (proj2 (getBlocks_state_first env_down_rejects st0) eq_refl).
Defined.

(** ** [watchNetwork] *)

(** X17: [watchNetwork] watches the filter ['latest'] and hands every
    notification to exactly one of the two functions it was given:
    [errorCallback] sees the errors of the notifications that carry a
    truthy error, [callback] sees the results of all the others, each in
    the order of arrival. *)
Theorem watchNetwork_routes notifications :
  (watchNetwork notifications).1 = "latest" ∧
  length (watchNetwork notifications).2 = length notifications ∧
  omap to_callback (watchNetwork notifications).2 =
    snd <$> List.filter (λ n, negb (truthy n.1)) notifications ∧
  omap to_errorCallback (watchNetwork notifications).2 =
    fst <$> List.filter (λ n, truthy n.1) notifications.
Proof.
  unfold watchNetwork, watch_handler. simpl.
  split; [done|]. split; [by rewrite length_fmap|].
  induction notifications as [|[error result] ns [IHc IHe]]; [done|].
  simpl. destruct (truthy error); simpl.
  - split; [exact IHc|by f_equal].
  - split; [by f_equal|exact IHe].
Qed.
